(** * ReVCS native helper: [open_editor] and its JNI bridge

    A shallow embedding of [src/ReVCS/native/src/main.cpp].  The helper
    forks, runs [execlp] on the editor in the child, waits in the parent
    and, on failure, prints one line on [cerr] and calls [exit(-1)].

    The C++ code is sequential code over operating-system primitives, so it
    is embedded in a small state-and-outcome monad [M]: a computation takes
    the state of the world as one process sees it and either returns a
    value, or ends the process ([exit]), or is replaced by another program
    image ([execlp]), or blocks for ever ([wait] with nothing to wait for),
    or runs into undefined behaviour.  Every primitive the source calls
    records its call, with its arguments, in the trace of the world. *)

From Stdlib Require Import ZArith NArith List String Ascii Bool Lia.
Import ListNotations.

Local Open Scope string_scope.
Local Open Scope list_scope.
Local Open Scope Z_scope.

(** ** Byte strings

    A [std::string] is a sequence of bytes of any value, NUL included; it
    is modelled by [string], whose characters are the 256 byte values. *)

Definition NUL : ascii := Ascii.zero.

Definition is_nul (c : ascii) : bool := Ascii.eqb c NUL.

(** The line feed that [endl] puts on a stream. *)
Definition newline : string := String (ascii_of_nat 10) EmptyString.

(** [std::string::c_str()] hands a C API a pointer to the bytes followed by
    a terminating NUL.  The callee reads up to the first NUL byte, so what
    it sees of [s] is the part of [s] before its first NUL. *)
Fixpoint c_str (s : string) : string :=
  match s with
  | EmptyString => EmptyString
  | String c s' => if is_nul c then EmptyString else String c (c_str s')
  end.

(** Whether a byte string holds a NUL byte. *)
Fixpoint has_nul (s : string) : bool :=
  match s with
  | EmptyString => false
  | String c s' => is_nul c || has_nul s'
  end.

(** A string the operating system accepts as one argument of a program:
    one that a NUL-terminated buffer can carry. *)
Definition valid_os_arg (s : string) : Prop := has_nul s = false.

(** ** The world of one process *)

Inductive stream_id : Type := Cout | Cerr.

(** An output stream: the bytes still in its buffer and the bytes that
    reached its file descriptor. *)
Record ostream : Type := mk_ostream {
  pending : string;
  emitted : string
}.

(** A stream after a flush: its buffer went to the descriptor. *)
Definition flushed (o : ostream) : ostream :=
  mk_ostream EmptyString (emitted o ++ pending o)%string.

(** How the kernel answers [fork()]: it fails (the caller gets -1), or the
    computation goes on in the new child (which gets 0), or in the parent
    (which gets the child's pid). *)
Inductive fork_answer : Type :=
| ForkFails
| ForkChild
| ForkParent (pid : positive).

(** How the kernel answers an [exec] of a file: the image of the process is
    replaced, or the call fails and returns -1. *)
Inductive exec_answer : Type :=
| ExecReplaces
| ExecFails.

Inductive child_state : Type :=
| Running
| Zombie (status : Z).

(** What happens around the process while it is blocked in a system call:
    a process terminates with an exit status, or a signal whose handler
    interrupts the system call is delivered to the process. *)
Inductive kernel_event : Type :=
| Terminates (pid status : Z)
| Signal.

(** The calls a process makes, with their arguments. *)
Inductive event : Type :=
| EvFork
| EvExeclp (file : string) (argv : list string)
| EvWait (wstatus : option Z)
| EvInsert (s : stream_id) (text : string)
| EvFlush (s : stream_id)
| EvExit (status : Z).

Record world : Type := mk_world {
  (** the kernel's answer to the next [fork] *)
  w_fork : fork_answer;
  (** its answers to the calls of [fork] after the next *)
  w_fork_later : nat -> fork_answer;
  (** the kernel's answer to an [exec] of the named file *)
  w_exec : string -> exec_answer;
  (** the children of the process that were not reaped yet *)
  w_children : list (Z * child_state);
  (** what is to come, in order *)
  w_schedule : list kernel_event;
  (** whether the process ignores SIGCHLD: its children then leave no
      zombie when they terminate *)
  w_sigchld_ignored : bool;
  w_cout : ostream;
  w_cerr : ostream;
  (** the environment variables *)
  w_environ : list (string * string);
  (** the calls made so far, oldest first *)
  w_trace : list event
}.

Definition set_children (cs : list (Z * child_state)) (w : world) : world :=
  mk_world (w_fork w) (w_fork_later w) (w_exec w) cs (w_schedule w)
           (w_sigchld_ignored w) (w_cout w) (w_cerr w) (w_environ w)
           (w_trace w).

Definition set_schedule (sch : list kernel_event) (w : world) : world :=
  mk_world (w_fork w) (w_fork_later w) (w_exec w) (w_children w) sch
           (w_sigchld_ignored w) (w_cout w) (w_cerr w) (w_environ w)
           (w_trace w).

Definition get_stream (s : stream_id) (w : world) : ostream :=
  match s with
  | Cout => w_cout w
  | Cerr => w_cerr w
  end.

Definition set_stream (s : stream_id) (o : ostream) (w : world) : world :=
  match s with
  | Cout => mk_world (w_fork w) (w_fork_later w) (w_exec w) (w_children w)
                     (w_schedule w) (w_sigchld_ignored w)
                     o (w_cerr w) (w_environ w) (w_trace w)
  | Cerr => mk_world (w_fork w) (w_fork_later w) (w_exec w) (w_children w)
                     (w_schedule w) (w_sigchld_ignored w)
                     (w_cout w) o (w_environ w) (w_trace w)
  end.

Definition log (e : event) (w : world) : world :=
  mk_world (w_fork w) (w_fork_later w) (w_exec w) (w_children w)
           (w_schedule w) (w_sigchld_ignored w) (w_cout w) (w_cerr w)
           (w_environ w) (w_trace w ++ [e]).

(** The answer to the next [fork] is used up: the one after it is next. *)
Definition next_fork (w : world) : world :=
  mk_world (w_fork_later w 0%nat) (fun n => w_fork_later w (S n)) (w_exec w)
           (w_children w) (w_schedule w) (w_sigchld_ignored w) (w_cout w)
           (w_cerr w) (w_environ w) (w_trace w).

(** ** The monad *)

Inductive outcome (A : Type) : Type :=
| Returned (a : A)
| Exited (status : Z)
| Replaced (file : string) (argv : list string)
| Blocked
| Undefined.

Arguments Returned {A} a.
Arguments Exited {A} status.
Arguments Replaced {A} file argv.
Arguments Blocked {A}.
Arguments Undefined {A}.

Definition M (A : Type) : Type := world -> outcome A * world.

Definition ret {A : Type} (a : A) : M A := fun w => (Returned a, w).

Definition bind {A B : Type} (m : M A) (k : A -> M B) : M B :=
  fun w =>
    match m w with
    | (Returned a, w') => k a w'
    | (Exited st, w') => (Exited st, w')
    | (Replaced f args, w') => (Replaced f args, w')
    | (Blocked, w') => (Blocked, w')
    | (Undefined, w') => (Undefined, w')
    end.

Declare Scope proc_scope.
Delimit Scope proc_scope with proc.

Notation "x <- m ;; k" := (bind m (fun x => k))
  (at level 100, m at next level, right associativity) : proc_scope.
Notation "m ;; k" := (bind m (fun _ => k))
  (at level 100, right associativity) : proc_scope.

Local Open Scope proc_scope.

(** ** The primitives the source calls *)

(** [fork()].  A new child has no children of its own; the parent gains
    the child, running. *)
Definition fork : M Z :=
  fun w =>
    let w' := next_fork (log EvFork w) in
    match w_fork w with
    | ForkFails => (Returned (-1), w')
    | ForkChild => (Returned 0, set_children [] w')
    | ForkParent p =>
        (Returned (Z.pos p),
         set_children ((Z.pos p, Running) :: w_children w) w')
    end.

(** [execlp(file, arg0, ..., NULL)]: [args] are the arguments before the
    closing [NULL].  The call returns only when it fails. *)
Definition execlp (file : string) (args : list string) : M Z :=
  fun w =>
    let w' := log (EvExeclp file args) w in
    match w_exec w file with
    | ExecReplaces => (Replaced file args, w')
    | ExecFails => (Returned (-1), w')
    end.

(** The first zombie among the children, and the children left. *)
Fixpoint reap (cs : list (Z * child_state))
  : option (Z * Z * list (Z * child_state)) :=
  match cs with
  | [] => None
  | (p, Zombie st) :: cs' => Some (p, st, cs')
  | (p, Running) :: cs' =>
      match reap cs' with
      | Some (q, st, rest) => Some (q, st, (p, Running) :: rest)
      | None => None
      end
  end.

(** The running child [p] terminates with status [st]. *)
Fixpoint terminate (p st : Z) (cs : list (Z * child_state))
  : list (Z * child_state) :=
  match cs with
  | [] => []
  | (q, Running) :: cs' =>
      if q =? p then (q, Zombie st) :: cs'
      else (q, Running) :: terminate p st cs'
  | c :: cs' => c :: terminate p st cs'
  end.

(** The running child [p] terminates while SIGCHLD is ignored: it leaves
    no zombie. *)
Fixpoint vanish (p : Z) (cs : list (Z * child_state))
  : list (Z * child_state) :=
  match cs with
  | [] => []
  | (q, Running) :: cs' =>
      if q =? p then cs' else (q, Running) :: vanish p cs'
  | c :: cs' => c :: vanish p cs'
  end.

Definition child_ends (ignored : bool) (p st : Z)
  (cs : list (Z * child_state)) : list (Z * child_state) :=
  if ignored then vanish p cs else terminate p st cs.

(** How a call of [wait] ends: a child is reaped and its pid returned; or
    the call fails with -1, interrupted by a signal, or because no child
    is left to wait for; or it never returns.  The answers carry the
    children and the schedule that are left. *)
Inductive wait_answer : Type :=
| Reaped (pid status : Z) (rest : list (Z * child_state))
         (sch : list kernel_event)
| Interrupted (rest : list (Z * child_state)) (sch : list kernel_event)
| NoChild (sch : list kernel_event)
| Never.

(** Blocking until a child can be reaped: a zombie is taken at once;
    without any child the call fails; otherwise time passes, one event of
    the schedule after the other, and a signal ends the call. *)
Fixpoint await (ignored : bool) (cs : list (Z * child_state))
  (sch : list kernel_event) {struct sch} : wait_answer :=
  match reap cs with
  | Some (p, st, rest) => Reaped p st rest sch
  | None =>
      match cs with
      | [] => NoChild sch
      | _ :: _ =>
          match sch with
          | [] => Never
          | Terminates p st :: sch' =>
              await ignored (child_ends ignored p st cs) sch'
          | Signal :: sch' => Interrupted cs sch'
          end
      end
  end.

(** [wait(wstatus)]: waits for any child of the caller; there is no pid
    among its arguments.  It returns the pid of the child it reaped, or -1
    when it fails.  With the null pointer for [wstatus] ([None]) the
    status of the child is dropped; the source passes no other value. *)
Definition wait (wstatus : option Z) : M Z :=
  fun w =>
    let w' := log (EvWait wstatus) w in
    match await (w_sigchld_ignored w) (w_children w) (w_schedule w) with
    | Reaped p _ rest sch =>
        (Returned p, set_schedule sch (set_children rest w'))
    | Interrupted rest sch =>
        (Returned (-1), set_schedule sch (set_children rest w'))
    | NoChild sch =>
        (Returned (-1), set_schedule sch (set_children [] w'))
    | Never => (Blocked, w')
    end.

(** [cerr] is tied to [cout]: before anything is put on [cerr], [cout] is
    flushed. *)
Definition flush_tied (s : stream_id) (w : world) : world :=
  match s with
  | Cerr => set_stream Cout (flushed (w_cout w)) w
  | Cout => w
  end.

(** [os << text] *)
Definition insert (s : stream_id) (text : string) : M unit :=
  fun w =>
    let w1 := flush_tied s w in
    let o := get_stream s w1 in
    (Returned tt,
     set_stream s (mk_ostream (pending o ++ text)%string (emitted o))
                (log (EvInsert s text) w1)).

(** [flush(os)] *)
Definition flush (s : stream_id) : M unit :=
  fun w =>
    let o := get_stream s w in
    (Returned tt,
     set_stream s (mk_ostream EmptyString (emitted o ++ pending o)%string)
                (log (EvFlush s) w)).

(** [os << endl]: a line feed, then a flush. *)
Definition endl (s : stream_id) : M unit :=
  insert s newline ;; flush s.

(** [exit(status)]: the standard streams are flushed and the process
    ends. *)
Definition exit {A : Type} (status : Z) : M A :=
  fun w =>
    let w' := log (EvExit status) w in
    (Exited status,
     set_stream Cerr (flushed (w_cerr w'))
       (set_stream Cout (flushed (w_cout w')) w')).

(** The status a waiting parent is given for [exit(status)]: its low eight
    bits. *)
Definition exit_code (status : Z) : Z := Z.land status 255.

(** ** [open_editor] *)

Definition diagnostic : string :=
  "Unable to call editor right now, exiting with status -1.".

(** The block at label [returnErr]. *)
Definition returnErr {A : Type} : M A :=
  insert Cerr diagnostic ;;
  endl Cerr ;;
  flush Cerr ;;
  exit (-1).

Definition open_editor (filename : string) : M unit :=
  let editor := "vi" in
  pid <- fork ;;
  if pid =? -1 then returnErr
  else if pid =? 0 then
    (execlp (c_str editor) [c_str editor; c_str filename] ;;
     returnErr)
  else
    (wait None ;;
     ret tt).

(** ** The JNI bridge *)

Definition jstring : Type := Z.
Definition jobject : Type := Z.

(** The function table of the host runtime, as far as the bridge uses it.
    [GetStringUTFChars] gives the bytes of a buffer, or the null pointer
    ([None]) when it fails. *)
Record JNIEnv : Type := mk_JNIEnv {
  GetStringUTFChars : jstring -> option string
}.

(** [string(p)] for [p] a [const char *]: the bytes at [p] up to the first
    NUL.  The constructor has undefined behaviour on the null pointer. *)
Definition std_string (p : option string) : M string :=
  match p with
  | None => fun w => (Undefined, w)
  | Some buf => ret (c_str buf)
  end.

Definition Java_com_dheerajshyam_revcs_Staging_open_1editor
  (env : JNIEnv) (thisObj : jobject) (file_name : jstring) : M unit :=
  let isCopy := true in
  let c_file_name := GetStringUTFChars env file_name in
  filename <- std_string c_file_name ;;
  open_editor filename.

(** ** The strings of the host runtime

    The host is a Java runtime.  A Java string is a sequence of UTF-16
    code units, and [GetStringUTFChars] gives its bytes in the modified
    UTF-8 of the JNI specification: every code unit is encoded by itself,
    in one byte for U+0001 to U+007F, in two for U+0000 and U+0080 to
    U+07FF and in three for the others, the two surrogates of a
    supplementary character included. *)

Definition byte (n : Z) : ascii := ascii_of_N (Z.to_N n).

Definition bytes (l : list Z) : string :=
  fold_right (fun b s => String (byte b) s) EmptyString l.

(** The UTF-8 bytes of one code point. *)
Definition utf8_char (c : Z) : string :=
  if c <? 0x80 then bytes [c]
  else if c <? 0x800 then
    bytes [Z.lor 0xC0 (Z.shiftr c 6); Z.lor 0x80 (Z.land c 0x3F)]
  else if c <? 0x10000 then
    bytes [Z.lor 0xE0 (Z.shiftr c 12);
           Z.lor 0x80 (Z.land (Z.shiftr c 6) 0x3F);
           Z.lor 0x80 (Z.land c 0x3F)]
  else
    bytes [Z.lor 0xF0 (Z.shiftr c 18);
           Z.lor 0x80 (Z.land (Z.shiftr c 12) 0x3F);
           Z.lor 0x80 (Z.land (Z.shiftr c 6) 0x3F);
           Z.lor 0x80 (Z.land c 0x3F)].

(** The UTF-8 bytes of a text, given by its code points. *)
Fixpoint utf8 (t : list Z) : string :=
  match t with
  | [] => EmptyString
  | c :: t' => (utf8_char c ++ utf8 t')%string
  end.

(** The UTF-16 code units of one code point. *)
Definition utf16_char (c : Z) : list Z :=
  if c <? 0x10000 then [c]
  else [0xD800 + Z.shiftr (c - 0x10000) 10;
        0xDC00 + Z.land (c - 0x10000) 0x3FF].

(** The Java string of a text. *)
Definition utf16 (t : list Z) : list Z := flat_map utf16_char t.

(** The modified UTF-8 bytes of one code unit. *)
Definition modified_utf8_unit (u : Z) : string :=
  if (0 <? u) && (u <? 0x80) then bytes [u]
  else if u <? 0x800 then
    bytes [Z.lor 0xC0 (Z.shiftr u 6); Z.lor 0x80 (Z.land u 0x3F)]
  else
    bytes [Z.lor 0xE0 (Z.shiftr u 12);
           Z.lor 0x80 (Z.land (Z.shiftr u 6) 0x3F);
           Z.lor 0x80 (Z.land u 0x3F)].

Fixpoint modified_utf8 (units : list Z) : string :=
  match units with
  | [] => EmptyString
  | u :: units' => (modified_utf8_unit u ++ modified_utf8 units')%string
  end.

(** A Java runtime in which the handle [h] holds the Java string
    [strings h]; for a handle without a string (and whenever it cannot
    give a buffer) its [GetStringUTFChars] gives the null pointer. *)
Definition java_env (strings : jstring -> option (list Z)) : JNIEnv :=
  mk_JNIEnv (fun h =>
               match strings h with
               | Some units => Some (modified_utf8 units)
               | None => None
               end).

(** A code point of the Basic Multilingual Plane. *)
Definition in_bmp (c : Z) : Prop := 0 <= c < 0x10000.

(** ** Observing a run *)

(** The calls that running [m] from [w] adds to the trace. *)
Definition events_of {A : Type} (m : M A) (w : world) : list event :=
  skipn (List.length (w_trace w)) (w_trace (snd (m w))).

(** The [exec] calls of a trace: file and argument vector. *)
Fixpoint exec_calls (t : list event) : list (string * list string) :=
  match t with
  | [] => []
  | EvExeclp file argv :: t' => (file, argv) :: exec_calls t'
  | _ :: t' => exec_calls t'
  end.

Definition is_wait (e : event) : bool :=
  match e with
  | EvWait _ => true
  | _ => false
  end.

(** How often a trace calls [wait]. *)
Definition wait_calls (t : list event) : nat :=
  List.length (filter is_wait t).

Definition is_output (e : event) : bool :=
  match e with
  | EvInsert _ _ | EvFlush _ => true
  | _ => false
  end.

(** The stream operations of a trace. *)
Definition outputs (t : list event) : list event := filter is_output t.

Definition stream_eqb (a b : stream_id) : bool :=
  match a, b with
  | Cout, Cout | Cerr, Cerr => true
  | _, _ => false
  end.

(** The text a trace inserts into stream [s]. *)
Fixpoint written_to (s : stream_id) (t : list event) : string :=
  match t with
  | [] => EmptyString
  | EvInsert s' text :: t' =>
      if stream_eqb s s' then (text ++ written_to s t')%string
      else written_to s t'
  | _ :: t' => written_to s t'
  end.

(** One line: some bytes other than the line feed, then one line feed. *)
Fixpoint is_line (s : string) : bool :=
  match s with
  | EmptyString => false
  | String c s' =>
      if Ascii.eqb c (ascii_of_nat 10)
      then match s' with EmptyString => true | _ => false end
      else is_line s'
  end.

Definition set_environ (env : list (string * string)) (w : world) : world :=
  mk_world (w_fork w) (w_fork_later w) (w_exec w) (w_children w)
           (w_schedule w) (w_sigchld_ignored w) (w_cout w) (w_cerr w) env
           (w_trace w).

(** The pids of the children that were not reaped. *)
Definition child_pids (w : world) : list Z := map fst (w_children w).

(** The paths of [open_editor] on which it reaches [returnErr]. *)
Definition fatal_path (w : world) : bool :=
  match w_fork w with
  | ForkFails => true
  | ForkChild =>
      match w_exec w "vi" with
      | ExecFails => true
      | ExecReplaces => false
      end
  | ForkParent _ => false
  end.

(** The kernel's answer to the [wait] of the parent, after a [fork] that
    gave it the child [p]. *)
Definition wait_of_parent (p : positive) (w : world) : wait_answer :=
  await (w_sigchld_ignored w) ((Z.pos p, Running) :: w_children w)
        (w_schedule w).

(** Whether a call of [wait] returns. *)
Definition returns (a : wait_answer) : bool :=
  match a with
  | Never => false
  | _ => true
  end.

(** What wakes up a process blocked in [wait] with the one child [p]: the
    termination of [p] ([Some true]), a signal ([Some false]), or
    nothing. *)
Fixpoint next_wakeup (p : Z) (sch : list kernel_event) : option bool :=
  match sch with
  | [] => None
  | Terminates q _ :: sch' => if q =? p then Some true else next_wakeup p sch'
  | Signal :: _ => Some false
  end.

(** The schedule [sch] with every exit status [st] replaced by [f st]. *)
Definition with_statuses (f : Z -> Z) (sch : list kernel_event)
  : list kernel_event :=
  map (fun e =>
         match e with
         | Terminates p st => Terminates p (f st)
         | Signal => Signal
         end) sch.

(** The children without the exit statuses of the zombies. *)
Definition shape (cs : list (Z * child_state)) : list (Z * bool) :=
  map (fun c =>
         (fst c, match snd c with Running => true | Zombie _ => false end))
      cs.

(** ** Sample worlds *)

Definition empty_stream : ostream := mk_ostream EmptyString EmptyString.

(** A fresh process in which [fork] answers [a] and [exec] answers [x];
    [cs] are its children and [sch] is what is to come.  It does not
    ignore SIGCHLD, and a later [fork] would fail. *)
Definition sample_world (a : fork_answer) (x : exec_answer)
  (cs : list (Z * child_state)) (sch : list kernel_event) : world :=
  mk_world a (fun _ => ForkFails) (fun _ => x) cs sch false
           empty_stream empty_stream [] [].

(** The bytes [a], NUL, [b]. *)
Definition nul_name : string :=
  String "a" (String NUL (String "b" EmptyString)).

(** A caller with a terminated child 7 that it did not reap, in which
    [fork] gives the parent the pid 42; the editor never terminates. *)
Definition busy_world : world :=
  sample_world (ForkParent 42) ExecReplaces [(7, Zombie 0)] [].

(** A caller without other children, in which [fork] gives the parent the
    pid 42 and a signal arrives while the editor runs. *)
Definition signalled_world : world :=
  sample_world (ForkParent 42) ExecReplaces [] [Signal; Terminates 42 0].

(** A host runtime whose decoding fails on every handle. *)
Definition failing_env : JNIEnv := mk_JNIEnv (fun _ => None).

(** A host runtime in which every handle holds the bytes [s]. *)
Definition const_env (s : string) : JNIEnv := mk_JNIEnv (fun _ => Some s).

(** The text of one supplementary character, U+1F600. *)
Definition emoji : list Z := [0x1F600].

(** A Java runtime in which every handle holds the Java string of the
    text [t]. *)
Definition text_env (t : list Z) : JNIEnv :=
  java_env (fun _ => Some (utf16 t)).

(** The calls of the block at [returnErr]. *)
Definition fatal_events : list event :=
  [EvInsert Cerr diagnostic; EvInsert Cerr newline;
   EvFlush Cerr; EvFlush Cerr; EvExit (-1)].

(** [cerr] after the block at [returnErr] ran from [w]: its buffer, with
    the line added, went to the descriptor. *)
Definition fatal_cerr (w : world) : ostream :=
  mk_ostream EmptyString
    (emitted (w_cerr w) ++ pending (w_cerr w) ++ diagnostic ++ newline)%string.

(** ** Counting calls *)

Definition is_fork (e : event) : bool :=
  match e with
  | EvFork => true
  | _ => false
  end.

(** How often a trace calls [fork]. *)
Definition fork_calls (t : list event) : nat :=
  List.length (filter is_fork t).

Definition is_exit (e : event) : bool :=
  match e with
  | EvExit _ => true
  | _ => false
  end.

(** How often a trace calls [exit]. *)
Definition exit_calls (t : list event) : nat :=
  List.length (filter is_exit t).

(** Two invocations by one caller, one after the other. *)
Definition open_editor_twice (F1 F2 : string) : M unit :=
  open_editor F1 ;;
  open_editor F2.

(** * Properties *)

(** ** Strings and lists *)

Lemma append_empty_r (s : string) : (s ++ EmptyString)%string = s.
Proof.
  induction s as [|c s IH]; simpl; [reflexivity | now rewrite IH].
Qed.

Lemma append_assoc3 (a b c : string) :
  ((a ++ b) ++ c)%string = (a ++ b ++ c)%string.
Proof.
  induction a as [|x a IH]; simpl; [reflexivity | now rewrite IH].
Qed.

Lemma c_str_valid (s : string) : valid_os_arg s -> c_str s = s.
Proof.
  unfold valid_os_arg.
  induction s as [|c s IH]; simpl; intros H; [reflexivity|].
  apply orb_false_iff in H as [Hc Hs].
  rewrite Hc. f_equal. exact (IH Hs).
Qed.

Lemma c_str_has_no_nul (s : string) : valid_os_arg (c_str s).
Proof.
  unfold valid_os_arg.
  induction s as [|c s IH]; simpl; [reflexivity|].
  destruct (is_nul c) eqn:Hc; simpl; [reflexivity|].
  now rewrite Hc, IH.
Qed.

Lemma has_nul_app (a b : string) :
  has_nul (a ++ b) = has_nul a || has_nul b.
Proof.
  induction a as [|x a IH]; simpl; [reflexivity|].
  now rewrite IH, orb_assoc.
Qed.

Lemma skipn_prefix {A : Type} (l l' : list A) :
  skipn (List.length l) (l ++ l') = l'.
Proof.
  induction l as [|x l IH]; simpl; [reflexivity | exact IH].
Qed.

(** ** Waiting *)

Lemma await_unfold ign cs sch :
  await ign cs sch =
  match reap cs with
  | Some (p, st, rest) => Reaped p st rest sch
  | None =>
      match cs with
      | [] => NoChild sch
      | _ :: _ =>
          match sch with
          | [] => Never
          | Terminates p st :: sch' => await ign (child_ends ign p st cs) sch'
          | Signal :: sch' => Interrupted cs sch'
          end
      end
  end.
Proof. destruct sch as [|[p st|] sch]; reflexivity. Qed.

(** A child that terminated already is reaped without waiting. *)
Lemma await_zombie ign cs sch q st rest :
  reap cs = Some (q, st, rest) -> await ign cs sch = Reaped q st rest sch.
Proof. intros H. rewrite await_unfold, H. reflexivity. Qed.

(** What is left of the children when [wait] reaps one. *)
Lemma reap_keeps_running cs q st rest x :
  reap cs = Some (q, st, rest) -> In (x, Running) cs -> In (x, Running) rest.
Proof.
  revert q st rest.
  induction cs as [|[y [|sy]] cs IH]; cbn [reap]; intros q st rest H Hin.
  - discriminate.
  - destruct (reap cs) as [[[q' st'] rest']|] eqn:Hr; [|discriminate].
    injection H as <- <- <-.
    destruct Hin as [Hin|Hin]; [now left | right; eauto].
  - injection H as <- <- <-.
    destruct Hin as [Hin|Hin]; [discriminate | exact Hin].
Qed.

Lemma terminate_keeps_running e st cs x :
  e <> x -> In (x, Running) cs -> In (x, Running) (terminate e st cs).
Proof.
  intros Hne.
  induction cs as [|[y [|sy]] cs IH]; cbn [terminate]; intros Hin.
  - exact Hin.
  - destruct (Z.eqb_spec y e) as [->|Hy].
    + destruct Hin as [Hin|Hin]; [congruence | now right].
    + destruct Hin as [Hin|Hin]; [now left | right; auto].
  - destruct Hin as [Hin|Hin]; [discriminate | right; auto].
Qed.

(** When all children run, the one that terminates is the one reaped. *)
Lemma reap_terminated cs x st :
  reap cs = None -> In (x, Running) cs ->
  exists rest, reap (terminate x st cs) = Some (x, st, rest).
Proof.
  induction cs as [|[y [|sy]] cs IH]; cbn [reap terminate]; intros Hr Hin.
  - destruct Hin.
  - destruct (reap cs) as [[[q' st'] rest']|] eqn:Hr'; [discriminate|].
    destruct (Z.eqb_spec y x) as [->|Hy].
    + eexists. reflexivity.
    + destruct Hin as [Hin|Hin]; [congruence|].
      destruct (IH eq_refl Hin) as [rest Hrest].
      cbn [reap]. rewrite Hrest. eexists. reflexivity.
  - discriminate.
Qed.

(** While SIGCHLD is ignored no zombie comes into being. *)
Lemma vanish_no_zombie p cs : reap cs = None -> reap (vanish p cs) = None.
Proof.
  induction cs as [|[y [|sy]] cs IH]; cbn [reap vanish]; intros Hr.
  - reflexivity.
  - destruct (reap cs) as [[[q' st'] rest']|] eqn:Hr'; [discriminate|].
    destruct (y =? p); [exact Hr'|].
    cbn [reap]. now rewrite IH.
  - discriminate.
Qed.

Lemma await_ignored_never_reaps sch :
  forall cs q st rest sch',
    reap cs = None -> await true cs sch <> Reaped q st rest sch'.
Proof.
  induction sch as [|[e se|] sch IH]; intros cs q st rest sch' Hr;
    rewrite await_unfold, Hr; destruct cs as [|c cs]; try discriminate.
  unfold child_ends. apply IH. now apply vanish_no_zombie.
Qed.

(** A running child other than the one reaped is still running when
    [wait] is over. *)
Lemma await_keeps_other ign sch :
  forall cs q st rest sch' x,
    await ign cs sch = Reaped q st rest sch' ->
    In (x, Running) cs -> q <> x -> In (x, Running) rest.
Proof.
  induction sch as [|[e se|] sch IH]; intros cs q st rest sch' x;
    rewrite await_unfold;
    destruct (reap cs) as [[[q0 st0] rest0]|] eqn:Hr; intros H Hin Hne;
    try (injection H as <- <- <- <-; eapply reap_keeps_running; eauto; fail);
    destruct cs as [|c cs0]; try discriminate.
  remember (c :: cs0) as cs eqn:Ecs. clear Ecs.
  destruct ign; unfold child_ends in H.
  - exfalso. revert H. apply await_ignored_never_reaps.
    now apply vanish_no_zombie.
  - destruct (Z.eq_dec e x) as [->|He].
    + destruct (reap_terminated cs x se Hr Hin) as [rest1 Hz].
      rewrite (await_zombie _ _ sch _ _ _ Hz) in H. congruence.
    + eapply IH; eauto using terminate_keeps_running.
Qed.

Lemma reap_length cs q st rest :
  reap cs = Some (q, st, rest) ->
  S (List.length rest) = List.length cs /\ In q (map fst cs).
Proof.
  revert q st rest.
  induction cs as [|[y [|sy]] cs IH]; cbn [reap]; intros q st rest H.
  - discriminate.
  - destruct (reap cs) as [[[q' st'] rest']|] eqn:Hr; [|discriminate].
    injection H as <- <- <-.
    destruct (IH _ _ _ eq_refl) as [Hl Hin].
    cbn [List.length map In fst]. split; [now rewrite Hl | now right].
  - injection H as <- <- <-. cbn [List.length map In fst].
    split; [reflexivity | now left].
Qed.

Lemma terminate_length e st cs :
  List.length (terminate e st cs) = List.length cs /\
  map fst (terminate e st cs) = map fst cs.
Proof.
  induction cs as [|[y [|sy]] cs [IHl IHp]]; cbn [terminate].
  - split; reflexivity.
  - destruct (y =? e); cbn [List.length map fst].
    + split; reflexivity.
    + now rewrite IHl, IHp.
  - cbn [List.length map fst]. now rewrite IHl, IHp.
Qed.

(** A [wait] that reaps takes one child away, and it is one of the
    children. *)
Lemma await_length ign sch :
  forall cs q st rest sch',
    await ign cs sch = Reaped q st rest sch' ->
    S (List.length rest) = List.length cs /\ In q (map fst cs).
Proof.
  induction sch as [|[e se|] sch IH]; intros cs q st rest sch';
    rewrite await_unfold;
    destruct (reap cs) as [[[q0 st0] rest0]|] eqn:Hr; intros H;
    try (injection H as <- <- <- <-; eapply reap_length; eauto; fail);
    destruct cs as [|c cs0]; try discriminate.
  remember (c :: cs0) as cs eqn:Ecs. clear Ecs.
  destruct ign; unfold child_ends in H.
  - exfalso. revert H. apply await_ignored_never_reaps.
    now apply vanish_no_zombie.
  - destruct (IH _ _ _ _ _ H) as [Hl Hin].
    destruct (terminate_length e se cs) as [Hl' Hp'].
    now rewrite <- Hl', <- Hp'.
Qed.

(** With the child [p] alone: [wait] is over when [p] terminates, and no
    child is left then; or when a signal arrives before, and [p] is left,
    running; otherwise it never returns. *)
Lemma await_alone ign p sch :
  match next_wakeup p sch with
  | Some true =>
      match await ign [(p, Running)] sch with
      | Reaped q _ rest _ => q = p /\ rest = []
      | NoChild _ => True
      | Interrupted _ _ | Never => False
      end
  | Some false =>
      exists sch', await ign [(p, Running)] sch
                   = Interrupted [(p, Running)] sch'
  | None => await ign [(p, Running)] sch = Never
  end.
Proof.
  induction sch as [|[q st|] sch IH]; rewrite await_unfold;
    cbn [reap next_wakeup].
  - reflexivity.
  - rewrite (Z.eqb_sym q p).
    destruct ign; unfold child_ends; cbn [terminate vanish];
      destruct (p =? q); try exact IH;
      rewrite await_unfold; cbn [reap]; auto.
  - eexists. reflexivity.
Qed.

(** The exit statuses have no part in whether [wait] returns. *)

Lemma shape_reap cs1 cs2 :
  shape cs1 = shape cs2 ->
  match reap cs1, reap cs2 with
  | Some (_, _, r1), Some (_, _, r2) => shape r1 = shape r2
  | None, None => True
  | _, _ => False
  end.
Proof.
  revert cs2.
  induction cs1 as [|[p1 [|s1]] cs1 IH]; intros [|[p2 [|s2]] cs2] H;
    try discriminate; cbn [reap]; auto.
  - injection H as Hp Hs. specialize (IH cs2 Hs).
    destruct (reap cs1) as [[[? ?] r1]|], (reap cs2) as [[[? ?] r2]|];
      try contradiction; auto.
    unfold shape in *. cbn [map fst snd]. now rewrite Hp, IH.
  - injection H as Hp Hs. exact Hs.
Qed.

Lemma shape_child_ends ign p s1 s2 cs1 cs2 :
  shape cs1 = shape cs2 ->
  shape (child_ends ign p s1 cs1) = shape (child_ends ign p s2 cs2).
Proof.
  unfold child_ends. revert cs2.
  induction cs1 as [|[p1 [|t1]] cs1 IH]; intros [|[p2 [|t2]] cs2] H;
    try discriminate.
  - destruct ign; reflexivity.
  - injection H as Hp Hs. subst p2. specialize (IH cs2 Hs).
    destruct ign; cbn [terminate vanish]; destruct (p1 =? p);
      unfold shape in *; cbn [map fst snd]; congruence.
  - injection H as Hp Hs. subst p2. specialize (IH cs2 Hs).
    destruct ign; cbn [terminate vanish];
      unfold shape in *; cbn [map fst snd]; congruence.
Qed.

Lemma await_returns_shape ign f sch :
  forall cs1 cs2,
    shape cs1 = shape cs2 ->
    returns (await ign cs1 (with_statuses f sch)) =
    returns (await ign cs2 sch).
Proof.
  induction sch as [|[p st|] sch IH]; intros cs1 cs2 Hs;
    rewrite (await_unfold ign cs1), (await_unfold ign cs2);
    pose proof (shape_reap cs1 cs2 Hs) as Hr;
    destruct (reap cs1) as [[[? ?] r1]|], (reap cs2) as [[[? ?] r2]|];
    try contradiction; try reflexivity;
    destruct cs1 as [|c1 cs1], cs2 as [|c2 cs2];
    try discriminate; try reflexivity.
  cbn [with_statuses map]. apply IH. now apply shape_child_ends.
Qed.

(** ** The paths of [open_editor] *)

Ltac run_open_editor :=
  unfold events_of, open_editor, returnErr, endl, bind, fork, execlp, wait,
    insert, flush, exit, ret, flush_tied.

Ltac trace_suffix :=
  repeat rewrite <- app_assoc; cbn [app]; apply skipn_prefix.

Section Paths.

Variable filename : string.
Variable w : world.

Let r := open_editor filename w.

(** [fork] fails: the block at [returnErr] runs in the caller. *)
Lemma fork_fails_run :
  w_fork w = ForkFails ->
  fst r = Exited (-1) /\
  events_of (open_editor filename) w = EvFork :: fatal_events /\
  w_cerr (snd r) = fatal_cerr w /\
  w_cout (snd r) = flushed (w_cout w) /\
  w_children (snd r) = w_children w.
Proof.
  intros H. subst r. run_open_editor. rewrite H. cbn.
  repeat split.
  - trace_suffix.
  - unfold fatal_cerr, flushed. cbn [pending emitted]. f_equal.
    now rewrite !append_empty_r, append_assoc3.
  - unfold flushed. cbn [pending emitted]. now rewrite !append_empty_r.
Qed.

(** In the child, [execlp] fails: the same block runs in the child. *)
Lemma exec_fails_run :
  w_fork w = ForkChild -> w_exec w "vi" = ExecFails ->
  fst r = Exited (-1) /\
  events_of (open_editor filename) w =
    EvFork :: EvExeclp "vi" ["vi"; c_str filename] :: fatal_events /\
  w_cerr (snd r) = fatal_cerr w /\
  w_cout (snd r) = flushed (w_cout w) /\
  w_children (snd r) = [].
Proof.
  intros H Hx. subst r. run_open_editor. rewrite H. cbn. rewrite Hx. cbn.
  repeat split.
  - trace_suffix.
  - unfold fatal_cerr, flushed. cbn [pending emitted]. f_equal.
    now rewrite !append_empty_r, append_assoc3.
  - unfold flushed. cbn [pending emitted]. now rewrite !append_empty_r.
Qed.

(** In the child, [execlp] replaces the image. *)
Lemma exec_replaces_run :
  w_fork w = ForkChild -> w_exec w "vi" = ExecReplaces ->
  fst r = Replaced "vi" ["vi"; c_str filename] /\
  events_of (open_editor filename) w =
    [EvFork; EvExeclp "vi" ["vi"; c_str filename]] /\
  w_cerr (snd r) = w_cerr w /\
  w_cout (snd r) = w_cout w.
Proof.
  intros H Hx. subst r. run_open_editor. rewrite H. cbn. rewrite Hx. cbn.
  repeat split. trace_suffix.
Qed.

(** In the parent: one [wait], and [open_editor] returns when the call
    does, whatever its answer. *)
Lemma parent_run p :
  w_fork w = ForkParent p ->
  events_of (open_editor filename) w = [EvFork; EvWait None] /\
  w_cerr (snd r) = w_cerr w /\
  w_cout (snd r) = w_cout w /\
  match wait_of_parent p w with
  | Reaped _ _ rest sch | Interrupted rest sch =>
      fst r = Returned tt /\
      w_children (snd r) = rest /\ w_schedule (snd r) = sch
  | NoChild sch =>
      fst r = Returned tt /\
      w_children (snd r) = [] /\ w_schedule (snd r) = sch
  | Never =>
      fst r = Blocked /\
      w_children (snd r) = (Z.pos p, Running) :: w_children w
  end.
Proof.
  intros H. subst r. unfold wait_of_parent. run_open_editor. rewrite H. cbn.
  destruct (await _ _ _) as [q st rest sch|rest sch|sch|]; cbn;
    repeat split; trace_suffix.
Qed.

End Paths.

(** The [exec] calls of one run of [open_editor]. *)
Lemma exec_calls_of_open_editor (F : string) (w : world) :
  exec_calls (events_of (open_editor F) w) =
  match w_fork w with
  | ForkChild => [("vi", ["vi"; c_str F])]
  | _ => []
  end.
Proof.
  destruct (w_fork w) as [| |p] eqn:Hf.
  - destruct (fork_fails_run F w Hf) as (_ & -> & _). reflexivity.
  - destruct (w_exec w "vi") eqn:Hx.
    + destruct (exec_replaces_run F w Hf Hx) as (_ & -> & _). reflexivity.
    + destruct (exec_fails_run F w Hf Hx) as (_ & -> & _). reflexivity.
  - destruct (parent_run F w p Hf) as (-> & _). reflexivity.
Qed.

(** With a decoded buffer the bridge is [open_editor] on its C string. *)
Lemma bridge_decoded env thisObj h buf w :
  GetStringUTFChars env h = Some buf ->
  Java_com_dheerajshyam_revcs_Staging_open_1editor env thisObj h w =
  open_editor (c_str buf) w.
Proof.
  intros H. unfold Java_com_dheerajshyam_revcs_Staging_open_1editor.
  rewrite H. reflexivity.
Qed.

(** Whether the parent returns: exactly when its [wait] does. *)
Lemma parent_returns (F : string) (w : world) (p : positive) :
  w_fork w = ForkParent p ->
  fst (open_editor F w) =
  if returns (wait_of_parent p w) then Returned tt else Blocked.
Proof.
  intros Hf. destruct (parent_run F w p Hf) as (_ & _ & _ & Hw).
  destruct (wait_of_parent p w); cbn [returns]; apply Hw.
Qed.

Lemma returns_with_statuses (f : Z -> Z) (p : positive) (w : world) :
  returns (wait_of_parent p (set_schedule (with_statuses f (w_schedule w)) w))
  = returns (wait_of_parent p w).
Proof.
  unfold wait_of_parent.
  cbn [set_schedule w_schedule w_children w_sigchld_ignored].
  now apply await_returns_shape.
Qed.

(** ** More on C strings *)

Lemma c_str_idempotent (s : string) : c_str (c_str s) = c_str s.
Proof. apply c_str_valid, c_str_has_no_nul. Qed.

Lemma c_str_prefix (s : string) : String.prefix (c_str s) s = true.
Proof.
  induction s as [|c s IH]; cbn [c_str]; [reflexivity|].
  destruct (is_nul c); cbn [String.prefix]; [reflexivity|].
  destruct (ascii_dec c c) as [_|Hne]; [exact IH | now elim Hne].
Qed.

Lemma c_str_fixed_iff (s : string) : c_str s = s <-> valid_os_arg s.
Proof.
  split; [|apply c_str_valid].
  intros H. rewrite <- H. apply c_str_has_no_nul.
Qed.

(** ** Modified UTF-8 and UTF-8 *)

(** On the Basic Multilingual Plane, U+0000 apart, the Java string of a
    character is the character and its modified UTF-8 is its UTF-8. *)
Lemma modified_utf8_bmp_char (c : Z) :
  0 < c < 0x10000 ->
  modified_utf8 (utf16_char c) = utf8_char c.
Proof.
  intros [Hlo Hhi]. unfold utf16_char, utf8_char.
  destruct (Z.ltb_spec c 0x10000) as [_|]; [|lia].
  cbn [modified_utf8]. rewrite append_empty_r. unfold modified_utf8_unit.
  destruct (Z.ltb_spec 0 c) as [_|]; [|lia]. cbn [andb].
  destruct (c <? 0x80); [reflexivity|].
  destruct (c <? 0x800); reflexivity.
Qed.

Lemma modified_utf8_app (a b : list Z) :
  modified_utf8 (a ++ b) = (modified_utf8 a ++ modified_utf8 b)%string.
Proof.
  induction a as [|u a IH]; cbn [modified_utf8 app]; [reflexivity|].
  now rewrite IH, append_assoc3.
Qed.

(** The UTF-8 of U+0000 is the NUL byte: a text that is a valid argument
    holds no U+0000. *)
Lemma valid_utf8_cons (c : Z) (t : list Z) :
  valid_os_arg (utf8 (c :: t)) -> c <> 0 /\ valid_os_arg (utf8 t).
Proof.
  unfold valid_os_arg. cbn [utf8]. rewrite has_nul_app.
  intros H. apply orb_false_iff in H as [Hc Ht].
  split; [|exact Ht].
  intros ->. discriminate Hc.
Qed.

Lemma modified_utf8_bmp (t : list Z) :
  Forall in_bmp t ->
  valid_os_arg (utf8 t) ->
  modified_utf8 (utf16 t) = utf8 t.
Proof.
  induction t as [|c t IH]; intros Hb Hv; [reflexivity|].
  inversion Hb as [|? ? Hc Ht]; subst.
  destruct (valid_utf8_cons c t Hv) as [Hne Hv'].
  unfold utf16. cbn [flat_map]. fold (utf16 t).
  rewrite modified_utf8_app, (IH Ht Hv').
  rewrite modified_utf8_bmp_char; [reflexivity|].
  unfold in_bmp in Hc. lia.
Qed.

(** Only the parent returns. *)
Lemma returned_in_parent (F : string) (w : world) :
  fst (open_editor F w) = Returned tt -> exists p, w_fork w = ForkParent p.
Proof.
  intros Hret.
  destruct (w_fork w) as [| |p] eqn:Hf.
  - destruct (fork_fails_run F w Hf) as (Ho & _). congruence.
  - destruct (w_exec w "vi") eqn:Hx.
    + destruct (exec_replaces_run F w Hf Hx) as (Ho & _). congruence.
    + destruct (exec_fails_run F w Hf Hx) as (Ho & _). congruence.
  - now exists p.
Qed.

Lemma one_fork_call (F : string) (w : world) :
  fork_calls (events_of (open_editor F) w) = 1%nat.
Proof.
  destruct (w_fork w) as [| |p] eqn:Hf.
  - destruct (fork_fails_run F w Hf) as (_ & -> & _). reflexivity.
  - destruct (w_exec w "vi") eqn:Hx.
    + destruct (exec_replaces_run F w Hf Hx) as (_ & -> & _). reflexivity.
    + destruct (exec_fails_run F w Hf Hx) as (_ & -> & _). reflexivity.
  - destruct (parent_run F w p Hf) as (-> & _). reflexivity.
Qed.

(** ** The argument vector of the editor *)

(** C1: for every filename [F], a string that can be an argument of a
    program, when [fork] succeeds and the child path runs, [open_editor]
    calls [execlp] once, on the file [vi] with the argument vector [vi],
    [F] and nothing else: [F] is passed byte for byte and no shell is
    involved.  It is the first call after [fork], and the child becomes
    the editor when the call succeeds. *)
Theorem open_editor_child_execs_editor (F : string) (w : world) :
  w_fork w = ForkChild ->
  valid_os_arg F ->
  exec_calls (events_of (open_editor F) w) = [("vi", ["vi"; F])] /\
  events_of (open_editor F) w =
    EvFork :: EvExeclp "vi" ["vi"; F] ::
    match w_exec w "vi" with
    | ExecReplaces => []
    | ExecFails => fatal_events
    end /\
  fst (open_editor F w) =
    match w_exec w "vi" with
    | ExecReplaces => Replaced "vi" ["vi"; F]
    | ExecFails => Exited (-1)
    end.
Proof.
  intros Hf Hv.
  rewrite exec_calls_of_open_editor, Hf.
  destruct (w_exec w "vi") eqn:Hx.
  - destruct (exec_replaces_run F w Hf Hx) as (Ho & Hev & _).
    rewrite Ho, Hev, (c_str_valid F Hv). auto.
  - destruct (exec_fails_run F w Hf Hx) as (Ho & Hev & _).
    rewrite Ho, Hev, (c_str_valid F Hv). auto.
Qed.

Lemma open_editor_child_execs_editor_witness :
  exec_calls
    (events_of (open_editor "notes with spaces.md")
               (sample_world ForkChild ExecReplaces [] []))
  = [("vi", ["vi"; "notes with spaces.md"])].
Proof.
  apply (open_editor_child_execs_editor "notes with spaces.md"
           (sample_world ForkChild ExecReplaces [] []));
    reflexivity.
Defined.

(** ** The parent *)

(** C2, as the claim states it, fails when the caller has another child it
    did not reap: [open_editor] returns and the editor, child 42, is still
    among the children, running. *)
Lemma open_editor_returns_editor_unreaped :
  w_fork busy_world = ForkParent 42 /\
  fst (open_editor "/tmp/a.txt" busy_world) = Returned tt /\
  In 42 (child_pids (snd (open_editor "/tmp/a.txt" busy_world))) /\
  In (42, Running) (w_children (snd (open_editor "/tmp/a.txt" busy_world))).
Proof.
  split; [reflexivity|]. split; [reflexivity|].
  split; cbn; now left.
Qed.

(** Without any other child, a signal that interrupts the [wait] has the
    same effect: the call gives -1, the source does not look at what it
    gives, and [open_editor] returns with the editor running. *)
Lemma open_editor_returns_when_interrupted :
  w_children signalled_world = [] /\
  fst (open_editor "/tmp/a.txt" signalled_world) = Returned tt /\
  w_children (snd (open_editor "/tmp/a.txt" signalled_world))
    = [(42, Running)].
Proof. repeat split. Qed.

(** C2, amended: when [fork] succeeds in the parent, [open_editor] calls
    [wait] exactly once, with the null pointer for the status, and returns
    normally as soon as that call returns (it blocks as long as the call
    does), whatever the exit statuses of the children, which it never
    looks at.  When the caller has no other child that was not reaped and
    no signal interrupts the [wait], it does not return before the child
    has been reaped: it returns once the child has terminated, and no
    child is left then.  (When a signal comes first, it returns with the
    child running.) *)
Theorem open_editor_parent_waits_once (F : string) (w : world) (p : positive) :
  w_fork w = ForkParent p ->
  events_of (open_editor F) w = [EvFork; EvWait None] /\
  wait_calls (events_of (open_editor F) w) = 1%nat /\
  fst (open_editor F w) =
    (if returns (wait_of_parent p w) then Returned tt else Blocked) /\
  (forall f : Z -> Z,
      fst (open_editor F (set_schedule (with_statuses f (w_schedule w)) w)) =
      fst (open_editor F w)) /\
  (w_children w = [] ->
   match next_wakeup (Z.pos p) (w_schedule w) with
   | Some true =>
       fst (open_editor F w) = Returned tt /\
       w_children (snd (open_editor F w)) = []
   | Some false =>
       fst (open_editor F w) = Returned tt /\
       w_children (snd (open_editor F w)) = [(Z.pos p, Running)]
   | None =>
       fst (open_editor F w) = Blocked /\
       w_children (snd (open_editor F w)) = [(Z.pos p, Running)]
   end).
Proof.
  intros Hf.
  destruct (parent_run F w p Hf) as (Hev & _ & _ & Hw).
  rewrite Hev. split; [reflexivity|]. split; [reflexivity|].
  split; [exact (parent_returns F w p Hf)|].
  split.
  - intros f.
    rewrite (parent_returns F w p Hf).
    rewrite (parent_returns F (set_schedule _ w) p Hf).
    now rewrite returns_with_statuses.
  - intros Hc. unfold wait_of_parent in Hw. rewrite Hc in Hw.
    pose proof (await_alone (w_sigchld_ignored w) (Z.pos p) (w_schedule w))
      as Ha.
    destruct (next_wakeup (Z.pos p) (w_schedule w)) as [[|]|].
    + destruct (await _ _ _) as [q st rest sch|rest sch|sch|];
        try contradiction.
      * destruct Ha as [_ ->]. destruct Hw as (Ho & Hch & _). auto.
      * destruct Hw as (Ho & Hch & _). auto.
    + destruct Ha as [sch' Ha]. rewrite Ha in Hw.
      destruct Hw as (Ho & Hch & _). auto.
    + rewrite Ha in Hw. exact Hw.
Qed.

Lemma open_editor_parent_waits_once_witness :
  wait_calls
    (events_of (open_editor "/tmp/a.txt")
               (sample_world (ForkParent 42) ExecReplaces []
                             [Terminates 42 3]))
  = 1%nat /\
  fst (open_editor "/tmp/a.txt"
         (sample_world (ForkParent 42) ExecReplaces [] [Terminates 42 3]))
  = Returned tt.
Proof.
  destruct (open_editor_parent_waits_once "/tmp/a.txt"
              (sample_world (ForkParent 42) ExecReplaces []
                            [Terminates 42 3]) 42 eq_refl)
    as (_ & Hn & Hr & _).
  split; [exact Hn | exact Hr].
Defined.

(** ** The fatal paths *)

(** C3: when [fork] fails, for every filename, [open_editor] writes one
    line, the diagnostic and a line feed, to [cerr] and flushes it, so that
    nothing is left in the buffer; it never calls [wait]; it does not
    return: the process ends in [exit(-1)], a status that is not zero for
    the operating system either. *)
Theorem open_editor_fork_failure (F : string) (w : world) :
  w_fork w = ForkFails ->
  fst (open_editor F w) = Exited (-1) /\
  events_of (open_editor F) w = EvFork :: fatal_events /\
  written_to Cerr (events_of (open_editor F) w)
    = (diagnostic ++ newline)%string /\
  is_line (diagnostic ++ newline) = true /\
  w_cerr (snd (open_editor F w)) = fatal_cerr w /\
  pending (w_cerr (snd (open_editor F w))) = EmptyString /\
  wait_calls (events_of (open_editor F) w) = 0%nat /\
  exit_code (-1) = 255.
Proof.
  intros Hf.
  destruct (fork_fails_run F w Hf) as (Ho & Hev & Hcerr & _).
  rewrite Ho, Hev, Hcerr. repeat split.
Qed.

Lemma open_editor_fork_failure_witness :
  fst (open_editor "/tmp/a.txt" (sample_world ForkFails ExecReplaces [] []))
  = Exited (-1) /\
  emitted (w_cerr (snd (open_editor "/tmp/a.txt"
                          (sample_world ForkFails ExecReplaces [] []))))
  = (diagnostic ++ newline)%string.
Proof.
  destruct (open_editor_fork_failure "/tmp/a.txt"
              (sample_world ForkFails ExecReplaces [] []) eq_refl)
    as (Ho & _ & _ & _ & Hc & _).
  split; [exact Ho | rewrite Hc; reflexivity].
Defined.

(** C4: when [fork] succeeds and [execlp] fails in the child, for every
    filename, the child writes the same line to [cerr] and flushes it, and
    ends in [exit(-1)]; it does not return to the caller and it never
    calls [wait].  The process that ends is the child: it has no
    children. *)
Theorem open_editor_exec_failure (F : string) (w : world) :
  w_fork w = ForkChild ->
  w_exec w "vi" = ExecFails ->
  fst (open_editor F w) = Exited (-1) /\
  events_of (open_editor F) w =
    EvFork :: EvExeclp "vi" ["vi"; c_str F] :: fatal_events /\
  written_to Cerr (events_of (open_editor F) w)
    = (diagnostic ++ newline)%string /\
  w_cerr (snd (open_editor F w)) = fatal_cerr w /\
  pending (w_cerr (snd (open_editor F w))) = EmptyString /\
  wait_calls (events_of (open_editor F) w) = 0%nat /\
  w_children (snd (open_editor F w)) = [].
Proof.
  intros Hf Hx.
  destruct (exec_fails_run F w Hf Hx) as (Ho & Hev & Hcerr & _ & Hch).
  rewrite Ho, Hev, Hcerr, Hch. repeat split.
Qed.

Lemma open_editor_exec_failure_witness :
  fst (open_editor "/tmp/a.txt" (sample_world ForkChild ExecFails [] []))
  = Exited (-1) /\
  emitted (w_cerr (snd (open_editor "/tmp/a.txt"
                          (sample_world ForkChild ExecFails [] []))))
  = (diagnostic ++ newline)%string.
Proof.
  destruct (open_editor_exec_failure "/tmp/a.txt"
              (sample_world ForkChild ExecFails [] []) eq_refl eq_refl)
    as (Ho & _ & _ & Hc & _).
  split; [exact Ho | rewrite Hc; reflexivity].
Defined.

(** C8: a failure of [fork] has the same effect for any two filenames, in
    any two worlds: the exit status is -1, the calls are the same and the
    text written to [cerr] is the same line; in one world, the two runs
    are equal altogether. *)
Theorem spawn_failure_ignores_filename (F1 F2 : string) (w1 w2 : world) :
  w_fork w1 = ForkFails ->
  w_fork w2 = ForkFails ->
  fst (open_editor F1 w1) = Exited (-1) /\
  fst (open_editor F2 w2) = Exited (-1) /\
  events_of (open_editor F1) w1 = events_of (open_editor F2) w2 /\
  written_to Cerr (events_of (open_editor F1) w1)
    = written_to Cerr (events_of (open_editor F2) w2) /\
  written_to Cerr (events_of (open_editor F1) w1)
    = (diagnostic ++ newline)%string /\
  open_editor F1 w1 = open_editor F2 w1.
Proof.
  intros H1 H2.
  destruct (fork_fails_run F1 w1 H1) as (Ho1 & Hev1 & _).
  destruct (fork_fails_run F2 w2 H2) as (Ho2 & Hev2 & _).
  rewrite Ho1, Ho2, Hev1, Hev2. repeat split.
  run_open_editor. rewrite H1. reflexivity.
Qed.

Lemma spawn_failure_ignores_filename_witness :
  open_editor "/tmp/a.txt" (sample_world ForkFails ExecReplaces [] [])
  = open_editor "notes with spaces.md"
      (sample_world ForkFails ExecReplaces [] []).
Proof.
  apply (spawn_failure_ignores_filename "/tmp/a.txt" "notes with spaces.md"
           (sample_world ForkFails ExecReplaces [] [])
           (sample_world ForkFails ExecFails [(7, Running)] []));
    reflexivity.
Defined.

(** ** The editor command *)

(** C7: whatever the filename and the world, the only [exec] call of
    [open_editor] is the one of the child, and its command is the constant
    [vi], as file and as first argument.  The environment variables have no
    part in it, and neither has the filename. *)
Theorem editor_command_is_vi (F : string) (w : world) :
  exec_calls (events_of (open_editor F) w) =
    match w_fork w with
    | ForkChild => [("vi", ["vi"; c_str F])]
    | _ => []
    end /\
  Forall (fun c => fst c = "vi" /\ hd_error (snd c) = Some "vi")
         (exec_calls (events_of (open_editor F) w)) /\
  (forall env : list (string * string),
      exec_calls (events_of (open_editor F) (set_environ env w)) =
      exec_calls (events_of (open_editor F) w)) /\
  (forall F' : string,
      map fst (exec_calls (events_of (open_editor F') w)) =
      map fst (exec_calls (events_of (open_editor F) w))).
Proof.
  split; [apply exec_calls_of_open_editor|].
  split; [|split].
  - rewrite exec_calls_of_open_editor.
    destruct (w_fork w); repeat constructor.
  - intros env. now rewrite !exec_calls_of_open_editor.
  - intros F'. rewrite !exec_calls_of_open_editor.
    destruct (w_fork w); reflexivity.
Qed.

(** ** The bridge *)

(** C5, as the claim states it, fails on a text with a supplementary
    character.  The text U+1F600 has the UTF-8 bytes F0 9F 98 80, a valid
    argument; its Java string is the surrogate pair D83D DE00, and the
    bytes the bridge gets for it, and [execlp] after it, are the six bytes
    ED A0 BD ED B8 80. *)
Lemma bridge_supplementary_character_changed :
  valid_os_arg (utf8 emoji) /\
  exec_calls
    (events_of (Java_com_dheerajshyam_revcs_Staging_open_1editor
                  (text_env emoji) 0 1)
               (sample_world ForkChild ExecReplaces [] []))
  = [("vi", ["vi"; bytes [0xED; 0xA0; 0xBD; 0xED; 0xB8; 0x80]])] /\
  exec_calls
    (events_of (Java_com_dheerajshyam_revcs_Staging_open_1editor
                  (text_env emoji) 0 1)
               (sample_world ForkChild ExecReplaces [] []))
  <> [("vi", ["vi"; utf8 emoji])].
Proof.
  split; [reflexivity|]. split; [reflexivity|].
  vm_compute. intros H. discriminate H.
Qed.

(** C5, amended: let [S] be the UTF-8 of a text whose characters all lie
    in the Basic Multilingual Plane, a valid argument for the operating
    system, and let the handle [h] hold the Java string of that text.
    Then the bridge is [open_editor] on [S]: every [exec] call it makes
    has the argument vector [vi], [S], with the bytes of [S] unchanged,
    and in the child it makes exactly that call. *)
Theorem bridge_passes_bmp_text_through
  (strings : jstring -> option (list Z)) (thisObj : jobject) (h : jstring)
  (t : list Z) (w : world) :
  strings h = Some (utf16 t) ->
  valid_os_arg (utf8 t) ->
  Forall in_bmp t ->
  exec_calls
    (events_of (Java_com_dheerajshyam_revcs_Staging_open_1editor
                  (java_env strings) thisObj h) w) =
    match w_fork w with
    | ForkChild => [("vi", ["vi"; utf8 t])]
    | _ => []
    end /\
  Java_com_dheerajshyam_revcs_Staging_open_1editor
    (java_env strings) thisObj h w = open_editor (utf8 t) w.
Proof.
  intros Hs Hv Hb.
  assert (Hd : GetStringUTFChars (java_env strings) h = Some (utf8 t)).
  { cbn [java_env GetStringUTFChars]. rewrite Hs.
    now rewrite (modified_utf8_bmp t Hb Hv). }
  assert (Hrun : Java_com_dheerajshyam_revcs_Staging_open_1editor
                   (java_env strings) thisObj h w = open_editor (utf8 t) w).
  { rewrite (bridge_decoded _ thisObj h (utf8 t) w Hd).
    now rewrite c_str_valid. }
  split; [|exact Hrun].
  unfold events_of. rewrite Hrun.
  fold (events_of (open_editor (utf8 t)) w).
  rewrite exec_calls_of_open_editor, (c_str_valid (utf8 t) Hv). reflexivity.
Qed.

Lemma bridge_passes_bmp_text_through_witness :
  exec_calls
    (events_of (Java_com_dheerajshyam_revcs_Staging_open_1editor
                  (text_env [0x68; 0xE9; 0x6C; 0x6C; 0x6F; 0x2E; 0x74; 0x78;
                             0x74]) 0 1)
               (sample_world ForkChild ExecReplaces [] []))
  = [("vi", ["vi"; utf8 [0x68; 0xE9; 0x6C; 0x6C; 0x6F; 0x2E; 0x74; 0x78;
                         0x74]])].
Proof.
  apply (bridge_passes_bmp_text_through
           (fun _ => Some (utf16 [0x68; 0xE9; 0x6C; 0x6C; 0x6F; 0x2E; 0x74;
                                  0x78; 0x74]))
           0 1 [0x68; 0xE9; 0x6C; 0x6C; 0x6F; 0x2E; 0x74; 0x78; 0x74]
           (sample_world ForkChild ExecReplaces [] []));
    [reflexivity | reflexivity | repeat constructor; discriminate].
Defined.

(** C6 does not hold of the code.  When the decoding gives the null
    pointer the bridge does not look at it: it builds the [std::string]
    from it, which is undefined behaviour, before [open_editor] is
    entered.  Nothing is written to [cerr] and [exit] is not called by the
    bridge: the world is as it was. *)
Theorem bridge_null_decode_undefined
  (thisObj : jobject) (h : jstring) (w : world) :
  GetStringUTFChars failing_env h = None /\
  Java_com_dheerajshyam_revcs_Staging_open_1editor failing_env thisObj h w =
    (Undefined, w) /\
  events_of (Java_com_dheerajshyam_revcs_Staging_open_1editor
               failing_env thisObj h) w = [].
Proof.
  split; [reflexivity|]. split; [reflexivity|].
  unfold events_of. cbn. apply skipn_all.
Qed.

(** ** Which child is reaped *)

(** C9: the one [wait] of the parent is called with the null pointer and
    no pid.  It reaps the first child of the caller that can be reaped;
    when that is a child [q] other than the editor, [open_editor] returns
    with the editor still running and not reaped. *)
Theorem wait_reaps_any_child
  (F : string) (w : world) (p : positive)
  (q st : Z) (rest : list (Z * child_state)) (sch : list kernel_event) :
  w_fork w = ForkParent p ->
  await (w_sigchld_ignored w) ((Z.pos p, Running) :: w_children w)
        (w_schedule w)
    = Reaped q st rest sch ->
  q <> Z.pos p ->
  events_of (open_editor F) w = [EvFork; EvWait None] /\
  fst (open_editor F w) = Returned tt /\
  w_children (snd (open_editor F w)) = rest /\
  In (Z.pos p, Running) (w_children (snd (open_editor F w))).
Proof.
  intros Hf Ha Hne.
  destruct (parent_run F w p Hf) as (Hev & _ & _ & Hw).
  unfold wait_of_parent in Hw.
  rewrite Ha in Hw. destruct Hw as (Ho & Hch & _).
  rewrite Hev, Ho, Hch. repeat split.
  eapply await_keeps_other; [exact Ha | now left | exact Hne].
Qed.

Lemma wait_reaps_any_child_witness :
  fst (open_editor "/tmp/a.txt" busy_world) = Returned tt /\
  w_children (snd (open_editor "/tmp/a.txt" busy_world)) = [(42, Running)].
Proof.
  destruct (wait_reaps_any_child "/tmp/a.txt" busy_world 42 7 0
              [(42, Running)] [] eq_refl eq_refl)
    as (_ & Ho & Hch & _).
  - discriminate.
  - split; [exact Ho | exact Hch].
Defined.

(** ** Output *)

(** C10: on the paths that do not reach [returnErr], the parent after a
    [fork] that succeeded and the child whose [execlp] succeeded,
    [open_editor] makes no stream call and leaves [cout] and [cerr] as
    they were.  On the two fatal paths it writes the diagnostic line to
    [cerr]; it puts nothing on [cout], whose buffer is flushed there. *)
Theorem open_editor_output_only_when_fatal (F : string) (w : world) :
  if fatal_path w
  then written_to Cerr (events_of (open_editor F) w)
         = (diagnostic ++ newline)%string /\
       written_to Cout (events_of (open_editor F) w) = EmptyString /\
       w_cout (snd (open_editor F w)) = flushed (w_cout w)
  else outputs (events_of (open_editor F) w) = [] /\
       written_to Cerr (events_of (open_editor F) w) = EmptyString /\
       written_to Cout (events_of (open_editor F) w) = EmptyString /\
       w_cout (snd (open_editor F w)) = w_cout w /\
       w_cerr (snd (open_editor F w)) = w_cerr w.
Proof.
  unfold fatal_path.
  destruct (w_fork w) as [| |p] eqn:Hf.
  - destruct (fork_fails_run F w Hf) as (_ & Hev & _ & Hcout & _).
    rewrite Hev, Hcout. repeat split.
  - destruct (w_exec w "vi") eqn:Hx.
    + destruct (exec_replaces_run F w Hf Hx) as (_ & Hev & Hcerr & Hcout).
      rewrite Hev, Hcerr, Hcout. repeat split.
    + destruct (exec_fails_run F w Hf Hx) as (_ & Hev & _ & Hcout & _).
      rewrite Hev, Hcout. repeat split.
  - destruct (parent_run F w p Hf) as (Hev & Hcerr & Hcout & _).
    rewrite Hev, Hcerr, Hcout. repeat split.
Qed.

(** * Further properties of the helper *)

(** ** The calls of one invocation *)

(** X1: every run of [open_editor], whatever the filename and the world,
    calls [fork] exactly once, as its first call; it makes at most one
    call of [execlp] or [wait], never both in one process; it calls
    [exit] once on the two fatal paths, as its last call, and not at all
    on the others. *)
Theorem open_editor_call_discipline (F : string) (w : world) :
  hd_error (events_of (open_editor F) w) = Some EvFork /\
  fork_calls (events_of (open_editor F) w) = 1%nat /\
  (List.length (exec_calls (events_of (open_editor F) w)) +
   wait_calls (events_of (open_editor F) w) <= 1)%nat /\
  if fatal_path w
  then exit_calls (events_of (open_editor F) w) = 1%nat /\
       last (events_of (open_editor F) w) EvFork = EvExit (-1)
  else exit_calls (events_of (open_editor F) w) = 0%nat.
Proof.
  unfold fatal_path.
  destruct (w_fork w) as [| |p] eqn:Hf.
  - destruct (fork_fails_run F w Hf) as (_ & -> & _).
    cbn. repeat split; lia.
  - destruct (w_exec w "vi") eqn:Hx.
    + destruct (exec_replaces_run F w Hf Hx) as (_ & -> & _).
      cbn. repeat split; lia.
    + destruct (exec_fails_run F w Hf Hx) as (_ & -> & _).
      cbn. repeat split; lia.
  - destruct (parent_run F w p Hf) as (-> & _).
    cbn. repeat split; lia.
Qed.

(** X2: [open_editor] returns to its caller only on the parent side, and
    only when its one [wait] has returned; it has called no [exec] and the
    streams are as they were.  When that [wait] reaped a child, the editor
    or another child of the caller, the caller has as many children not
    reaped as before the call. *)
Theorem open_editor_return_means_wait_returned (F : string) (w : world) :
  fst (open_editor F w) = Returned tt ->
  exists p : positive,
    w_fork w = ForkParent p /\
    returns (wait_of_parent p w) = true /\
    events_of (open_editor F) w = [EvFork; EvWait None] /\
    w_cout (snd (open_editor F w)) = w_cout w /\
    w_cerr (snd (open_editor F w)) = w_cerr w /\
    (forall q st rest sch,
        wait_of_parent p w = Reaped q st rest sch ->
        w_children (snd (open_editor F w)) = rest /\
        List.length rest = List.length (w_children w) /\
        In q (Z.pos p :: child_pids w)).
Proof.
  intros Hret.
  destruct (returned_in_parent F w Hret) as [p Hf]. exists p.
  destruct (parent_run F w p Hf) as (Hev & Hcerr & Hcout & Hw).
  pose proof (parent_returns F w p Hf) as Hr. rewrite Hret in Hr.
  split; [exact Hf|].
  split; [destruct (returns (wait_of_parent p w)); congruence|].
  split; [exact Hev|]. split; [exact Hcout|]. split; [exact Hcerr|].
  intros q st rest sch Ha. rewrite Ha in Hw. destruct Hw as (_ & Hch & _).
  destruct (await_length _ _ _ _ _ _ _ Ha) as [Hl Hin].
  cbn [List.length] in Hl.
  split; [exact Hch|]. split; [lia | exact Hin].
Qed.

Lemma open_editor_return_means_wait_returned_witness :
  exists p : positive,
    w_fork (sample_world (ForkParent 42) ExecReplaces
                         [(7, Running)] [Terminates 42 0])
    = ForkParent p.
Proof.
  destruct (open_editor_return_means_wait_returned "/tmp/a.txt"
              (sample_world (ForkParent 42) ExecReplaces
                            [(7, Running)] [Terminates 42 0]) eq_refl)
    as (p & Hf & _).
  exists p. exact Hf.
Defined.

(** X3: [open_editor] ends the process exactly on the two fatal paths,
    the failure of [fork] and, in the child, the failure of [execlp]; the
    status is always -1 and the diagnostic line was flushed to [cerr]
    before. *)
Theorem open_editor_exit_classification (F : string) (w : world) :
  (fst (open_editor F w) = Exited (-1) <-> fatal_path w = true) /\
  (forall st : Z,
      fst (open_editor F w) = Exited st ->
      st = -1 /\ w_cerr (snd (open_editor F w)) = fatal_cerr w).
Proof.
  unfold fatal_path.
  destruct (w_fork w) as [| |p] eqn:Hf.
  - destruct (fork_fails_run F w Hf) as (Ho & _ & Hc & _).
    rewrite Ho, Hc. repeat split; auto; intros; congruence.
  - destruct (w_exec w "vi") eqn:Hx.
    + destruct (exec_replaces_run F w Hf Hx) as (Ho & _).
      rewrite Ho. repeat split; intros; congruence.
    + destruct (exec_fails_run F w Hf Hx) as (Ho & _ & Hc & _).
      rewrite Ho, Hc. repeat split; auto; intros; congruence.
  - rewrite (parent_returns F w p Hf).
    destruct (returns (wait_of_parent p w));
      repeat split; intros; congruence.
Qed.

(** ** The argument of the editor, for any filename *)

(** X4: in the child, for every filename, with NUL bytes or without, the
    argument the editor is given is the C string of the filename: the
    bytes before its first NUL.  It holds no NUL, it is a prefix of the
    filename, and it is the whole filename exactly when the filename holds
    no NUL byte. *)
Theorem editor_argument_is_c_string (F : string) (w : world) :
  w_fork w = ForkChild ->
  exec_calls (events_of (open_editor F) w) = [("vi", ["vi"; c_str F])] /\
  valid_os_arg (c_str F) /\
  String.prefix (c_str F) F = true /\
  (exec_calls (events_of (open_editor F) w) = [("vi", ["vi"; F])]
   <-> valid_os_arg F).
Proof.
  intros Hf. rewrite exec_calls_of_open_editor, Hf.
  split; [reflexivity|].
  split; [apply c_str_has_no_nul|].
  split; [apply c_str_prefix|].
  rewrite <- c_str_fixed_iff. split.
  - intros H. now injection H.
  - intros H. now rewrite H.
Qed.

Lemma editor_argument_is_c_string_witness :
  exec_calls
    (events_of (open_editor nul_name)
               (sample_world ForkChild ExecFails [] []))
  = [("vi", ["vi"; c_str nul_name])].
Proof.
  apply (editor_argument_is_c_string nul_name
           (sample_world ForkChild ExecFails [] [])).
  reflexivity.
Defined.

(** ** More on the bridge *)

(** X5: for every buffer the decoding gives, with NUL bytes or without,
    the bridge calls [open_editor] on the bytes of the buffer before its
    first NUL.  The filename the launcher gets from the bridge holds no
    NUL, so in the child the editor is given exactly that filename. *)
Theorem bridge_editor_argument
  (env : JNIEnv) (thisObj : jobject) (h : jstring) (buf : string) (w : world) :
  GetStringUTFChars env h = Some buf ->
  w_fork w = ForkChild ->
  Java_com_dheerajshyam_revcs_Staging_open_1editor env thisObj h w =
    open_editor (c_str buf) w /\
  valid_os_arg (c_str buf) /\
  exec_calls
    (events_of (Java_com_dheerajshyam_revcs_Staging_open_1editor env thisObj h)
               w)
  = [("vi", ["vi"; c_str buf])].
Proof.
  intros Hd Hf.
  pose proof (bridge_decoded env thisObj h buf w Hd) as Hrun.
  split; [exact Hrun|]. split; [apply c_str_has_no_nul|].
  unfold events_of. rewrite Hrun.
  fold (events_of (open_editor (c_str buf)) w).
  now rewrite exec_calls_of_open_editor, Hf, c_str_idempotent.
Qed.

Lemma bridge_editor_argument_witness :
  exec_calls
    (events_of (Java_com_dheerajshyam_revcs_Staging_open_1editor
                  (const_env nul_name) 0 1)
               (sample_world ForkChild ExecReplaces [] []))
  = [("vi", ["vi"; c_str nul_name])].
Proof.
  apply (bridge_editor_argument (const_env nul_name) 0 1 nul_name
           (sample_world ForkChild ExecReplaces [] []));
    reflexivity.
Defined.

(** X7: when the decoding succeeds and the launcher is on a fatal path,
    the bridge does not return to the host runtime: the process that
    called it ends in [exit(-1)], with the diagnostic line flushed to
    [cerr] and no [wait] call. *)
Theorem bridge_fatal_ends_process
  (env : JNIEnv) (thisObj : jobject) (h : jstring) (buf : string) (w : world) :
  GetStringUTFChars env h = Some buf ->
  fatal_path w = true ->
  fst (Java_com_dheerajshyam_revcs_Staging_open_1editor env thisObj h w)
    = Exited (-1) /\
  w_cerr (snd (Java_com_dheerajshyam_revcs_Staging_open_1editor
                 env thisObj h w)) = fatal_cerr w /\
  written_to Cerr
    (events_of (Java_com_dheerajshyam_revcs_Staging_open_1editor
                  env thisObj h) w)
    = (diagnostic ++ newline)%string /\
  wait_calls
    (events_of (Java_com_dheerajshyam_revcs_Staging_open_1editor
                  env thisObj h) w) = 0%nat.
Proof.
  intros Hd Hfatal.
  unfold events_of.
  rewrite (bridge_decoded env thisObj h buf w Hd).
  fold (events_of (open_editor (c_str buf)) w).
  unfold fatal_path in Hfatal.
  destruct (w_fork w) as [| |p] eqn:Hf; [| |discriminate].
  - destruct (fork_fails_run (c_str buf) w Hf) as (Ho & Hev & Hc & _).
    rewrite Ho, Hev, Hc. repeat split.
  - destruct (w_exec w "vi") eqn:Hx; [discriminate|].
    destruct (exec_fails_run (c_str buf) w Hf Hx) as (Ho & Hev & Hc & _).
    rewrite Ho, Hev, Hc. repeat split.
Qed.

Lemma bridge_fatal_ends_process_witness :
  fst (Java_com_dheerajshyam_revcs_Staging_open_1editor
         (const_env "hello.txt") 0 1
         (sample_world ForkFails ExecReplaces [] []))
  = Exited (-1).
Proof.
  apply (bridge_fatal_ends_process (const_env "hello.txt") 0 1 "hello.txt"
           (sample_world ForkFails ExecReplaces [] []));
    reflexivity.
Defined.

(** ** After the end of the process *)

(** X10: outside the parent side, that is when [fork] fails and on the
    child side, nothing of the caller runs after [open_editor]: a second
    invocation in sequence is never begun, the run of the two is the run
    of the first and [fork] is called once.  The child never goes on in
    the code of the caller. *)
Theorem no_second_invocation_outside_parent
  (F1 F2 : string) (w : world) :
  (forall p : positive, w_fork w <> ForkParent p) ->
  open_editor_twice F1 F2 w = open_editor F1 w /\
  fst (open_editor F1 w) <> Returned tt /\
  fork_calls (events_of (open_editor_twice F1 F2) w) = 1%nat.
Proof.
  intros Hnp.
  assert (Hnr : fst (open_editor F1 w) <> Returned tt).
  { intros Hret.
    destruct (returned_in_parent F1 w Hret) as [p Hp].
    exact (Hnp p Hp). }
  assert (Hrun : open_editor_twice F1 F2 w = open_editor F1 w).
  { unfold open_editor_twice, bind.
    destruct (open_editor F1 w) as [[[]| | | |] w1]; cbn [fst] in Hnr;
      [now elim Hnr | reflexivity ..]. }
  split; [exact Hrun|]. split; [exact Hnr|].
  unfold events_of. rewrite Hrun.
  fold (events_of (open_editor F1) w).
  apply one_fork_call.
Qed.

Lemma no_second_invocation_outside_parent_witness :
  open_editor_twice "/tmp/a.txt" "/tmp/b.txt"
    (sample_world ForkChild ExecFails [] [])
  = open_editor "/tmp/a.txt" (sample_world ForkChild ExecFails [] []).
Proof.
  apply (no_second_invocation_outside_parent "/tmp/a.txt" "/tmp/b.txt"
           (sample_world ForkChild ExecFails [] [])).
  intros p. discriminate.
Defined.

(** ** The editor terminates first *)

(** X11: on the parent side, when the process does not ignore SIGCHLD,
    none of the caller's other children has terminated yet and the
    termination of the editor is the next thing to happen, [open_editor]
    returns with the editor reaped and the other children of the caller
    as they were, whatever the exit status of the editor. *)
Theorem editor_reaped_when_first_to_terminate
  (F : string) (w : world) (p : positive) (st : Z)
  (sch : list kernel_event) :
  w_fork w = ForkParent p ->
  w_sigchld_ignored w = false ->
  reap (w_children w) = None ->
  w_schedule w = Terminates (Z.pos p) st :: sch ->
  fst (open_editor F w) = Returned tt /\
  w_children (snd (open_editor F w)) = w_children w /\
  w_schedule (snd (open_editor F w)) = sch /\
  wait_calls (events_of (open_editor F) w) = 1%nat.
Proof.
  intros Hf Hi Hr Hs.
  destruct (parent_run F w p Hf) as (Hev & _ & _ & Hw).
  assert (Ha : wait_of_parent p w = Reaped (Z.pos p) st (w_children w) sch).
  { unfold wait_of_parent. rewrite Hs, Hi, await_unfold. cbn [reap].
    rewrite Hr. unfold child_ends. cbn [terminate]. rewrite Z.eqb_refl.
    now apply await_zombie. }
  rewrite Ha in Hw. destruct Hw as (Ho & Hch & Hsch).
  rewrite Hev. repeat split; assumption.
Qed.

Lemma editor_reaped_when_first_to_terminate_witness :
  w_children
    (snd (open_editor "/tmp/a.txt"
            (sample_world (ForkParent 42) ExecReplaces
                          [(7, Running)]
                          [Terminates 42 3; Terminates 7 0])))
  = [(7, Running)].
Proof.
  apply (editor_reaped_when_first_to_terminate "/tmp/a.txt"
           (sample_world (ForkParent 42) ExecReplaces
                         [(7, Running)] [Terminates 42 3; Terminates 7 0])
           42 3 [Terminates 7 0]);
    reflexivity.
Defined.
